(** * Copy-resolving retrieval of time-stamped rows

    A shallow embedding of [digitaltwin_dataspace/data/retrieve.py]: the
    rows of a table, the SQL statement that [base_query] builds (a left
    outer self-join on [copy_id], two [coalesce]d columns, an optional
    filter), the seven retrieval functions layered on it, the
    [data_result] decorator and the lazy [Data.data] accessor.

    The SQL statement is kept as a value ([Select]) so that "the query a
    function builds" can be compared, and it is given its meaning by
    [run]: FROM/JOIN, then WHERE, then ORDER BY, then LIMIT, then the
    projection.  Effects (opening a connection, executing a statement,
    reading a blob, raising) are recorded by a small writer/error monad. *)

From Stdlib Require Import ZArith List String Bool Lia Sorted Permutation.
Import ListNotations.
Open Scope Z_scope.

(** ** Rows *)

(** A row of the table: the columns the module reads.  [date] is a
    timestamp (a count of clock ticks); the nullable columns are options. *)
Record Row : Type := mkRow {
  row_id : Z;
  row_date : Z;
  row_data : option string;
  row_type : option string;
  row_hash : option string;
  row_copy_id : option Z
}.

(** What one row of the executed statement carries: the five labelled
    columns of the [select] in [base_query]. *)
Record ResultRow : Type := mkResultRow {
  res_id : Z;
  res_date : Z;
  res_data : option string;
  res_type : option string;
  res_hash : option string
}.

(** The [Data] dataclass. *)
Record Data : Type := mkData {
  date : Z;
  hash : option string;
  _url : option string;
  content_type : option string
}.

(** ** Statements and effects *)

Inductive direction : Type := Asc | Desc.

(** The WHERE clauses the module ever writes. *)
Inductive clause : Type :=
| CopyOrHashNotNull          (* (copy_id IS NOT NULL) OR (hash IS NOT NULL) *)
| DateGt (d : Z)             (* date > d *)
| DateLt (d : Z).            (* date < d *)

(** A statement derived from [base_query]: the selected columns and the
    join are the same for all of them, so only the clauses added by
    [.where], [.order_by] and [.limit] are recorded. *)
Record Select : Type := mkSelect {
  whereclause : list clause;
  order_by_clause : option direction;
  limit_clause : option nat
}.

Inductive event : Type :=
| Connect
| Execute (q : Select)
| Close
| BlobRead (url : option string).

Inductive exn : Type :=
| ArgumentError
| StorageUnavailable.

(** A computation: the events it performed, and an exception or a value.
    Failures of the connection itself are the engine's and are not
    modelled. *)
Definition IO (A : Type) : Type := (list event * (exn + A))%type.

Definition ret {A} (a : A) : IO A := ([], inr a).

Definition raise {A} (e : exn) : IO A := ([], inl e).

Definition bind {A B} (m : IO A) (f : A -> IO B) : IO B :=
  match snd m with
  | inl e => (fst m, inl e)
  | inr a => (fst m ++ fst (f a), snd (f a))
  end.

Declare Scope io_scope.
Delimit Scope io_scope with io.
Notation "x <- m ;; k" := (bind m (fun x => k))
  (at level 100, m at next level, right associativity) : io_scope.
Open Scope io_scope.

Definition trace {A} (m : IO A) : list event := fst m.
Definition outcome {A} (m : IO A) : exn + A := snd m.

(** [with engine.connect() as connection: body]: the connection is closed
    when the block is left, by a return or by an exception. *)
Definition with_connection {A} (body : IO A) : IO A :=
  (Connect :: fst body ++ [Close], snd body).

(** ** Building statements *)

(** [sqlalchemy.sql.functions.coalesce]: the first argument that is not
    NULL. *)
Definition coalesce {A} (a b : option A) : option A :=
  match a with
  | Some x => Some x
  | None => b
  end.

Definition base_query (with_null : bool) : Select :=
  {| whereclause := if with_null then [] else [CopyOrHashNotNull];
     order_by_clause := None;
     limit_clause := None |}.

(** [query.where(c)]: clauses accumulate and are joined by AND. *)
Definition where_ (q : Select) (c : clause) : Select :=
  {| whereclause := whereclause q ++ [c];
     order_by_clause := order_by_clause q;
     limit_clause := limit_clause q |}.

Definition order_by (q : Select) (d : direction) : Select :=
  {| whereclause := whereclause q;
     order_by_clause := Some d;
     limit_clause := limit_clause q |}.

(** [query.limit(n)]: [n] is a row count.  Engines disagree on a negative
    limit (an error for some, no limit for others), so the count is a
    natural number here. *)
Definition limit (q : Select) (n : nat) : Select :=
  {| whereclause := whereclause q;
     order_by_clause := order_by_clause q;
     limit_clause := Some n |}.

(** [table.c.date > v] and [table.c.date < v] for a Python value [v].
    SQLAlchemy renders a comparison with [None] only for [==] and [!=]
    (as IS NULL, IS NOT NULL); for an ordering operator it raises
    [ArgumentError] while the expression is built. *)
Definition date_gt (v : option Z) : IO clause :=
  match v with
  | Some d => ret (DateGt d)
  | None => raise ArgumentError
  end.

Definition date_lt (v : option Z) : IO clause :=
  match v with
  | Some d => ret (DateLt d)
  | None => raise ArgumentError
  end.

(** ** Executing statements *)

Definition is_some {A} (o : option A) : bool :=
  match o with Some _ => true | None => false end.

(** The ON condition [table.copy_id = t2.id]; a NULL [copy_id] matches
    nothing. *)
Definition on_clause (r t : Row) : bool :=
  match row_copy_id r with
  | Some c => c =? row_id t
  | None => false
  end.

(** [select_from(table).outerjoin(t2, table.c.copy_id == t2.c.id)]: every
    row of the table, paired with each row it references, or with NULLs
    when it references none. *)
Definition outerjoin (table : list Row) : list (Row * option Row) :=
  flat_map
    (fun r =>
       match filter (on_clause r) table with
       | [] => [(r, None)]
       | ms => map (fun t => (r, Some t)) ms
       end)
    table.

(** The clauses only mention columns of [table], the left side. *)
Definition holds (c : clause) (p : Row * option Row) : bool :=
  match c with
  | CopyOrHashNotNull =>
      is_some (row_copy_id (fst p)) || is_some (row_hash (fst p))
  | DateGt d => d <? row_date (fst p)
  | DateLt d => row_date (fst p) <? d
  end.

Definition holds_all (cs : list clause) (p : Row * option Row) : bool :=
  forallb (fun c => holds c p) cs.

(** ORDER BY [table.c.date]: [before d a b] when [a] may precede [b]. *)
Definition before (d : direction) (a b : Z) : bool :=
  match d with
  | Asc => a <=? b
  | Desc => b <=? a
  end.

Definition sort_key (p : Row * option Row) : Z := row_date (fst p).

Fixpoint insert_by (d : direction) (x : Row * option Row)
    (l : list (Row * option Row)) : list (Row * option Row) :=
  match l with
  | [] => [x]
  | y :: l' =>
      if before d (sort_key x) (sort_key y) then x :: l
      else y :: insert_by d x l'
  end.

(** Rows with equal dates keep the order the join produced them in; SQL
    leaves their order open. *)
Fixpoint sort_by (d : direction) (l : list (Row * option Row))
    : list (Row * option Row) :=
  match l with
  | [] => []
  | x :: l' => insert_by d x (sort_by d l')
  end.

Definition apply_order (o : option direction)
    (l : list (Row * option Row)) : list (Row * option Row) :=
  match o with
  | Some d => sort_by d l
  | None => l
  end.

Definition apply_limit {A} (o : option nat) (l : list A) : list A :=
  match o with
  | Some n => firstn n l
  | None => l
  end.

(** The selected columns:
    [id, date, coalesce(t2.data, data), type, coalesce(t2.hash, hash)]. *)
Definition project (p : Row * option Row) : ResultRow :=
  let r := fst p in
  let t2_data := match snd p with Some t => row_data t | None => None end in
  let t2_hash := match snd p with Some t => row_hash t | None => None end in
  {| res_id := row_id r;
     res_date := row_date r;
     res_data := coalesce t2_data (row_data r);
     res_type := row_type r;
     res_hash := coalesce t2_hash (row_hash r) |}.

(** The joined rows that pass the WHERE clauses of [q]. *)
Definition matching (table : list Row) (q : Select)
    : list (Row * option Row) :=
  filter (holds_all (whereclause q)) (outerjoin table).

(** The joined rows the statement returns, in order, before projection. *)
Definition chosen (table : list Row) (q : Select)
    : list (Row * option Row) :=
  apply_limit (limit_clause q)
    (apply_order (order_by_clause q) (matching table q)).

Definition run (table : list Row) (q : Select) : list ResultRow :=
  map project (chosen table q).

(** [connection.execute(q)] *)
Definition execute (table : list Row) (q : Select) : IO (list ResultRow) :=
  ([Execute q], inr (run table q)).

(** What a decorated function returns before the decorator sees it:
    [fetchone()] gives a row or [None], [fetchall()] a list. *)
Inductive fetched : Type :=
| NoRow
| OneRow (r : ResultRow)
| Rows (l : list ResultRow).

Definition fetchone (l : list ResultRow) : fetched :=
  match l with
  | [] => NoRow
  | r :: _ => OneRow r
  end.

Definition fetchall (l : list ResultRow) : fetched := Rows l.

(** ** The decorator *)

Inductive result : Type :=
| Absent
| One (d : Data)
| Many (l : list Data).

Definition to_data (row : ResultRow) : Data :=
  {| date := res_date row;
     hash := res_hash row;
     _url := res_data row;
     content_type := res_type row |}.

Definition data_result (func : IO fetched) : IO result :=
  r <- func ;;
  ret (match r with
       | NoRow => Absent
       | OneRow row => One (to_data row)
       | Rows l => Many (map to_data l)
       end).

(** ** The retrieval functions *)

Definition retrieve_latest_row (table : list Row) (with_null : bool)
    : IO result :=
  data_result (with_connection (
    rows <- execute table (limit (order_by (base_query with_null) Desc) 1) ;;
    ret (fetchone rows))).

Definition retrieve_first_row (table : list Row) : IO result :=
  data_result (with_connection (
    rows <- execute table (limit (order_by (base_query false) Asc) 1) ;;
    ret (fetchone rows))).

Definition retrieve_after_datetime (table : list Row) (d : Z) (n : nat)
    : IO result :=
  data_result (with_connection (
    c <- date_gt (Some d) ;;
    rows <- execute table
              (limit (order_by (where_ (base_query false) c) Desc) n) ;;
    ret (fetchall rows))).

Definition retrieve_before_datetime (table : list Row) (d : Z) (n : nat)
    : IO result :=
  data_result (with_connection (
    c <- date_lt (Some d) ;;
    rows <- execute table
              (limit (order_by (where_ (base_query false) c) Desc) n) ;;
    ret (fetchall rows))).

Definition retrieve_between_datetime (table : list Row)
    (start_date end_date : option Z) (n : nat) : IO result :=
  data_result (with_connection (
    match start_date with
    | None =>
        c <- date_lt end_date ;;
        rows <- execute table
                  (limit (order_by (where_ (base_query false) c) Asc) n) ;;
        ret (fetchall rows)
    | Some _ =>
        match end_date with
        | None =>
            c <- date_gt start_date ;;
            rows <- execute table
                      (limit (order_by (where_ (base_query false) c) Asc) n) ;;
            ret (fetchall rows)
        | Some _ =>
            c1 <- date_gt start_date ;;
            c2 <- date_lt end_date ;;
            rows <- execute table
                      (limit (order_by
                                (where_ (where_ (base_query false) c1) c2)
                                Asc) n) ;;
            ret (fetchall rows)
        end
    end)).

Definition retrieve_latest_rows_before_datetime (table : list Row) (d : Z)
    (n : nat) : IO result :=
  data_result (with_connection (
    c <- date_lt (Some d) ;;
    rows <- execute table
              (limit (order_by (where_ (base_query false) c) Desc) n) ;;
    ret (fetchall rows))).

Definition retrieve_latest_row_before_datetime (table : list Row) (d : Z)
    (with_null : bool) : IO result :=
  data_result (with_connection (
    c <- date_lt (Some d) ;;
    rows <- execute table
              (limit (order_by (where_ (base_query with_null) c) Desc) 1) ;;
    ret (fetchone rows))).

(** ** The blob store *)

Definition bytes : Type := list Byte.byte.

Fixpoint blob_lookup (store : list (string * bytes)) (u : string)
    : option bytes :=
  match store with
  | [] => None
  | (k, b) :: store' => if String.eqb k u then Some b else blob_lookup store' u
  end.

(** Modelled from the spec: [storage_manager.read] of the module
    [.storage], which is not part of the sources at hand.  Given a
    locator it returns the bytes stored under it and fails with
    [StorageUnavailable] when it cannot find the locator; a NULL locator
    names nothing. *)
Definition storage_manager_read (store : list (string * bytes))
    (url : option string) : IO bytes :=
  ([BlobRead url],
   match url with
   | Some u =>
       match blob_lookup store u with
       | Some b => inr b
       | None => inl StorageUnavailable
       end
   | None => inl StorageUnavailable
   end).

(** The property [Data.data]. *)
Definition Data_data (store : list (string * bytes)) (self : Data)
    : IO bytes :=
  storage_manager_read store (_url self).

(** ** Vocabulary of the properties *)

(** [a] may precede [b] in an ORDER BY [date] of direction [d]. *)
Definition ordered (d : direction) (a b : Row * option Row) : Prop :=
  before d (sort_key a) (sort_key b) = true.

(** A row with neither a reference nor a hash of its own. *)
Definition unresolved (r : Row) : bool :=
  match row_copy_id r, row_hash r with
  | None, None => true
  | _, _ => false
  end.

Definition visible (with_null : bool) (r : Row) : bool :=
  with_null || negb (unresolved r).

(** The rows of the join whose left side passes [keep], ordered by date in
    direction [dir], cut after [n] rows, resolved and wrapped. *)
Definition answer (table : list Row) (keep : Row -> bool) (dir : direction)
    (n : nat) : list Data :=
  map to_data
    (map project
       (firstn n
          (sort_by dir (filter (fun p => keep (fst p)) (outerjoin table))))).

Definition single (l : list Data) : result :=
  match l with
  | [] => Absent
  | x :: _ => One x
  end.

(** The statements a computation sent to the database. *)
Fixpoint executed (tr : list event) : list Select :=
  match tr with
  | [] => []
  | Execute q :: tr' => q :: executed tr'
  | _ :: tr' => executed tr'
  end.

(** The locators a computation asked the blob store for. *)
Fixpoint blob_reads (tr : list event) : list (option string) :=
  match tr with
  | [] => []
  | BlobRead u :: tr' => u :: blob_reads tr'
  | _ :: tr' => blob_reads tr'
  end.

(** The range of [retrieve_between_datetime], in the words of the
    specification: both bounds are exclusive, an absent bound does not
    constrain. *)
Definition within (lo hi : option Z) (t : Z) : bool :=
  match lo with Some s => s <? t | None => true end &&
  match hi with Some e => t <? e | None => true end.

(** What a call does with the connection: it opens one, executes at most
    one statement and closes it. *)
Definition one_connection (tr : list event) : Prop :=
  tr = [Connect; Close] \/ exists q, tr = [Connect; Execute q; Close].

(** A row carries a payload of its own, or names a row that does. *)
Definition has_payload (r : Row) : bool :=
  is_some (row_data r) && is_some (row_hash r).

Definition well_formed (table : list Row) : Prop :=
  NoDup (map row_id table) /\
  forall r, In r table ->
    has_payload r = true \/
    exists t, In t table /\ row_copy_id r = Some (row_id t) /\
              has_payload t = true.

(** * Properties *)

(** ** Ordering and limiting *)

Section Ordering.

Variable d : direction.

Lemma before_total (a b : Z) : before d a b = false -> before d b a = true.
Proof. destruct d; simpl; intros H; apply Z.leb_gt in H; apply Z.leb_le; lia. Qed.

Lemma before_trans (a b c : Z) :
  before d a b = true -> before d b c = true -> before d a c = true.
Proof.
  destruct d; simpl; rewrite !Z.leb_le; lia.
Qed.

Lemma insert_by_perm x l : Permutation (x :: l) (insert_by d x l).
Proof.
  induction l as [|y l IH]; simpl.
  - reflexivity.
  - destruct (before d (sort_key x) (sort_key y)).
    + reflexivity.
    + rewrite perm_swap. now apply perm_skip.
Qed.

Lemma sort_by_perm l : Permutation l (sort_by d l).
Proof.
  induction l as [|x l IH]; simpl.
  - constructor.
  - rewrite <- insert_by_perm. now apply perm_skip.
Qed.

Lemma insert_by_sorted x l :
  StronglySorted (ordered d) l -> StronglySorted (ordered d) (insert_by d x l).
Proof.
  induction 1 as [|y l Hs IH Hy]; simpl.
  - repeat constructor.
  - destruct (before d (sort_key x) (sort_key y)) eqn:E.
    + constructor.
      * now constructor.
      * constructor; [exact E|].
        eapply Forall_impl; [|exact Hy].
        intros z Hz. unfold ordered in *. eapply before_trans; eauto.
    + constructor; [exact IH|].
      eapply Permutation_Forall; [apply insert_by_perm|].
      constructor; [|exact Hy].
      now apply before_total.
Qed.

Lemma sort_by_sorted l : StronglySorted (ordered d) (sort_by d l).
Proof.
  induction l as [|x l IH]; simpl.
  - constructor.
  - now apply insert_by_sorted.
Qed.

Lemma sort_by_length l : List.length (sort_by d l) = List.length l.
Proof. symmetry. apply Permutation_length, sort_by_perm. Qed.

Lemma sort_by_Forall (P : Row * option Row -> Prop) l :
  Forall P l -> Forall P (sort_by d l).
Proof. apply Permutation_Forall, sort_by_perm. Qed.

End Ordering.

Lemma firstn_In {A} (x : A) n l : In x (firstn n l) -> In x l.
Proof.
  revert l. induction n as [|n IH]; intros [|y l]; simpl; try tauto.
  intros [H|H]; auto.
Qed.

Lemma firstn_sorted {A} (R : A -> A -> Prop) n l :
  StronglySorted R l -> StronglySorted R (firstn n l).
Proof.
  intros H. revert n.
  induction H as [|x l Hs IH Hx]; intros [|n]; simpl; try constructor.
  - apply IH.
  - rewrite Forall_forall in *. intros y Hy. apply Hx.
    eapply firstn_In; eauto.
Qed.

Lemma firstn_Forall {A} (P : A -> Prop) n l :
  Forall P l -> Forall P (firstn n l).
Proof.
  rewrite !Forall_forall. intros H x Hx. apply H.
  eapply firstn_In; eauto.
Qed.

Lemma map_sorted {A B} (f : A -> B) (R : A -> A -> Prop) (S : B -> B -> Prop) l :
  (forall a b, R a b -> S (f a) (f b)) ->
  StronglySorted R l -> StronglySorted S (map f l).
Proof.
  intros HRS. induction 1 as [|x l Hs IH Hx]; simpl; constructor; auto.
  rewrite Forall_forall in *. intros y Hy.
  apply in_map_iff in Hy as (a & <- & Ha). auto.
Qed.

Lemma sorted_weaken {A} (R S : A -> A -> Prop) l :
  (forall a b, R a b -> S a b) ->
  StronglySorted R l -> StronglySorted S l.
Proof.
  intros HRS. induction 1 as [|x l Hs IH Hx]; constructor; auto.
  eapply Forall_impl; [|exact Hx]. auto.
Qed.

Lemma holds_all_app cs cs' p :
  holds_all (cs ++ cs') p = holds_all cs p && holds_all cs' p.
Proof. unfold holds_all. apply forallb_app. Qed.

(** ** The join *)

Lemma outerjoin_intro table r t :
  In r table -> In t table -> on_clause r t = true ->
  In (r, Some t) (outerjoin table).
Proof.
  intros Hr Ht Hon. unfold outerjoin. apply in_flat_map.
  exists r. split; [exact Hr|].
  assert (Hin : In t (filter (on_clause r) table))
    by (apply filter_In; auto).
  destruct (filter (on_clause r) table) as [|m ms] eqn:E.
  - destruct Hin.
  - apply in_map_iff. exists t. auto.
Qed.

Lemma outerjoin_elim table p :
  In p (outerjoin table) ->
  In (fst p) table /\
  match snd p with
  | Some t => In t table /\ on_clause (fst p) t = true
  | None => forall t, In t table -> on_clause (fst p) t = false
  end.
Proof.
  unfold outerjoin. rewrite in_flat_map. intros (r & Hr & Hp).
  destruct (filter (on_clause r) table) as [|m ms] eqn:E.
  - destruct Hp as [<-|[]]. simpl. split; [exact Hr|].
    intros t Ht. destruct (on_clause r t) eqn:Hon; [|reflexivity].
    assert (Hin : In t (filter (on_clause r) table))
      by (apply filter_In; auto).
    rewrite E in Hin. destruct Hin.
  - apply in_map_iff in Hp as (t & <- & Ht). simpl. split; [exact Hr|].
    rewrite <- E in Ht. apply filter_In in Ht. exact Ht.
Qed.

(** ** What each function computes *)

Lemma run_answer table q keep dir n :
  order_by_clause q = Some dir ->
  limit_clause q = Some n ->
  (forall p, holds_all (whereclause q) p = keep (fst p)) ->
  map to_data (run table q) = answer table keep dir n.
Proof.
  intros Ho Hl Hk. unfold run, chosen, matching, answer.
  rewrite Ho, Hl. simpl. do 4 f_equal.
  apply filter_ext. exact Hk.
Qed.

Lemma base_clause with_null p :
  holds_all (whereclause (base_query with_null)) p = visible with_null (fst p).
Proof.
  unfold visible, unresolved. destruct with_null; simpl; [reflexivity|].
  destruct (row_copy_id (fst p)), (row_hash (fst p)); reflexivity.
Qed.

Lemma single_fetchone l :
  match fetchone l with
  | NoRow => Absent
  | OneRow row => One (to_data row)
  | Rows l' => Many (map to_data l')
  end = single (map to_data l).
Proof. destruct l; reflexivity. Qed.

Lemma retrieve_latest_row_eq table with_null :
  retrieve_latest_row table with_null =
  ([Connect; Execute (limit (order_by (base_query with_null) Desc) 1); Close],
   inr (single (answer table (visible with_null) Desc 1))).
Proof.
  unfold retrieve_latest_row, data_result, with_connection, bind, execute, ret.
  simpl. rewrite single_fetchone. do 3 f_equal.
  apply run_answer; try reflexivity.
  intros p. apply base_clause.
Qed.

Lemma retrieve_first_row_eq table :
  retrieve_first_row table =
  ([Connect; Execute (limit (order_by (base_query false) Asc) 1); Close],
   inr (single (answer table (visible false) Asc 1))).
Proof.
  unfold retrieve_first_row, data_result, with_connection, bind, execute, ret.
  simpl. rewrite single_fetchone. do 3 f_equal.
  apply run_answer; try reflexivity.
  intros p. apply base_clause.
Qed.

Lemma where_clause with_null c p :
  holds_all (whereclause (where_ (base_query with_null) c)) p =
  visible with_null (fst p) && holds c p.
Proof.
  change (whereclause (where_ (base_query with_null) c))
    with (whereclause (base_query with_null) ++ [c]).
  rewrite holds_all_app, base_clause. simpl.
  now rewrite andb_true_r.
Qed.

Lemma retrieve_after_datetime_eq table d n :
  retrieve_after_datetime table d n =
  ([Connect;
    Execute (limit (order_by (where_ (base_query false) (DateGt d)) Desc) n);
    Close],
   inr (Many (answer table
                (fun r => visible false r && (d <? row_date r)) Desc n))).
Proof.
  unfold retrieve_after_datetime, data_result, with_connection, bind, execute,
    ret. simpl. do 3 f_equal.
  apply run_answer; try reflexivity.
  intros p. apply (where_clause false).
Qed.

Lemma retrieve_before_datetime_eq table d n :
  retrieve_before_datetime table d n =
  ([Connect;
    Execute (limit (order_by (where_ (base_query false) (DateLt d)) Desc) n);
    Close],
   inr (Many (answer table
                (fun r => visible false r && (row_date r <? d)) Desc n))).
Proof.
  unfold retrieve_before_datetime, data_result, with_connection, bind, execute,
    ret. simpl. do 3 f_equal.
  apply run_answer; try reflexivity.
  intros p. apply (where_clause false).
Qed.

Lemma retrieve_latest_row_before_datetime_eq table d with_null :
  retrieve_latest_row_before_datetime table d with_null =
  ([Connect;
    Execute (limit (order_by (where_ (base_query with_null) (DateLt d)) Desc)
               1);
    Close],
   inr (single (answer table
                  (fun r => visible with_null r && (row_date r <? d))
                  Desc 1))).
Proof.
  unfold retrieve_latest_row_before_datetime, data_result, with_connection,
    bind, execute, ret. simpl. rewrite single_fetchone. do 3 f_equal.
  apply run_answer; try reflexivity.
  intros p. apply where_clause.
Qed.

Lemma retrieve_latest_rows_before_datetime_eq table d n :
  retrieve_latest_rows_before_datetime table d n =
  ([Connect;
    Execute (limit (order_by (where_ (base_query false) (DateLt d)) Desc) n);
    Close],
   inr (Many (answer table
                (fun r => visible false r && (row_date r <? d)) Desc n))).
Proof.
  unfold retrieve_latest_rows_before_datetime, data_result, with_connection,
    bind, execute, ret. simpl. do 3 f_equal.
  apply run_answer; try reflexivity.
  intros p. apply (where_clause false).
Qed.

Lemma retrieve_between_datetime_end table e n :
  retrieve_between_datetime table None (Some e) n =
  ([Connect;
    Execute (limit (order_by (where_ (base_query false) (DateLt e)) Asc) n);
    Close],
   inr (Many (answer table
                (fun r => visible false r && (row_date r <? e)) Asc n))).
Proof.
  unfold retrieve_between_datetime, data_result, with_connection, bind,
    execute, ret. simpl. do 3 f_equal.
  apply run_answer; try reflexivity.
  intros p. apply (where_clause false).
Qed.

Lemma retrieve_between_datetime_start table s n :
  retrieve_between_datetime table (Some s) None n =
  ([Connect;
    Execute (limit (order_by (where_ (base_query false) (DateGt s)) Asc) n);
    Close],
   inr (Many (answer table
                (fun r => visible false r && (s <? row_date r)) Asc n))).
Proof.
  unfold retrieve_between_datetime, data_result, with_connection, bind,
    execute, ret. simpl. do 3 f_equal.
  apply run_answer; try reflexivity.
  intros p. apply (where_clause false).
Qed.

Lemma retrieve_between_datetime_both table s e n :
  retrieve_between_datetime table (Some s) (Some e) n =
  ([Connect;
    Execute (limit (order_by (where_ (where_ (base_query false) (DateGt s))
                                (DateLt e)) Asc) n);
    Close],
   inr (Many (answer table
                (fun r => visible false r &&
                          ((s <? row_date r) && (row_date r <? e)))
                Asc n))).
Proof.
  unfold retrieve_between_datetime, data_result, with_connection, bind,
    execute, ret. simpl. do 3 f_equal.
  apply run_answer; try reflexivity.
  intros p.
  change (holds_all
            (whereclause (where_ (base_query false) (DateGt s)) ++ [DateLt e])
            p
          = visible false (fst p) &&
            ((s <? row_date (fst p)) && (row_date (fst p) <? e))).
  rewrite holds_all_app, (where_clause false). simpl.
  now rewrite andb_true_r, andb_assoc.
Qed.

(** ** Properties of [answer] *)

Section Answer.

Variables (table : list Row) (keep : Row -> bool) (dir : direction)
          (n : nat).

Lemma answer_length :
  List.length (answer table keep dir n) =
  Nat.min n (List.length
               (filter (fun p => keep (fst p)) (outerjoin table))).
Proof.
  unfold answer. now rewrite !length_map, length_firstn, sort_by_length.
Qed.

Lemma answer_length_le : (List.length (answer table keep dir n) <= n)%nat.
Proof. rewrite answer_length. apply Nat.le_min_l. Qed.

(** Every result comes from a row of the table that passes [keep]. *)
Lemma answer_from x :
  In x (answer table keep dir n) ->
  exists p, In p (outerjoin table) /\ In (fst p) table /\
            keep (fst p) = true /\ x = to_data (project p).
Proof.
  unfold answer. rewrite map_map, in_map_iff. intros (p & <- & Hp).
  apply firstn_In in Hp.
  apply (Permutation_in _ (Permutation_sym (sort_by_perm dir _))) in Hp.
  apply filter_In in Hp as [Hj Hk].
  exists p. repeat split; auto. now apply outerjoin_elim.
Qed.

Lemma answer_dates (P : Z -> Prop) :
  (forall r, In r table -> keep r = true -> P (row_date r)) ->
  Forall (fun x => P (date x)) (answer table keep dir n).
Proof.
  intros H. apply Forall_forall. intros x Hx.
  apply answer_from in Hx as (p & _ & Hin & Hk & ->). simpl. auto.
Qed.

Lemma answer_sorted :
  StronglySorted (fun a b => before dir (date a) (date b) = true)
    (answer table keep dir n).
Proof.
  unfold answer. rewrite map_map.
  apply map_sorted with (R := ordered dir).
  - intros a b H. exact H.
  - apply firstn_sorted, sort_by_sorted.
Qed.

Lemma answer_nil :
  (forall r, In r table -> keep r = false) ->
  answer table keep dir n = [].
Proof.
  intros H. destruct (answer table keep dir n) as [|x l] eqn:E.
  - reflexivity.
  - assert (Hx : In x (answer table keep dir n))
      by (rewrite E; now left).
    apply answer_from in Hx as (p & _ & Hin & Hk & _).
    rewrite (H _ Hin) in Hk. discriminate.
Qed.

End Answer.

(** ** Resolution through [copy_id] *)

Lemma on_clause_ref r t :
  row_copy_id r = Some (row_id t) -> on_clause r t = true.
Proof. unfold on_clause. intros ->. apply Z.eqb_refl. Qed.

Lemma on_clause_id r t :
  on_clause r t = true -> row_copy_id r = Some (row_id t).
Proof.
  unfold on_clause. destruct (row_copy_id r) as [c|]; [|discriminate].
  intros H. apply Z.eqb_eq in H. now subst.
Qed.

Lemma run_base table with_null :
  run table (base_query with_null) =
  map project (filter (fun p => visible with_null (fst p)) (outerjoin table)).
Proof.
  unfold run, chosen, matching. simpl apply_limit. f_equal.
  apply filter_ext. intros p. apply base_clause.
Qed.

(** A row that references [t] is returned, resolved against [t]. *)
Lemma resolved_in table with_null r t :
  In r table -> In t table -> row_copy_id r = Some (row_id t) ->
  In (project (r, Some t)) (run table (base_query with_null)).
Proof.
  intros Hr Ht Hc. rewrite run_base. apply in_map, filter_In. split.
  - apply outerjoin_intro; auto. now apply on_clause_ref.
  - simpl. unfold visible, unresolved. rewrite Hc.
    now destruct with_null.
Qed.

Lemma unique_id table (a b : Row) :
  NoDup (map row_id table) -> In a table -> In b table ->
  row_id a = row_id b -> a = b.
Proof.
  induction table as [|c l IH]; simpl; [tauto|].
  intros Hnd Ha Hb Hid. inversion Hnd as [|? ? Hnot Hnd']; subst.
  destruct Ha as [->|Ha], Hb as [->|Hb]; auto.
  - exfalso. apply Hnot. rewrite Hid. now apply in_map.
  - exfalso. apply Hnot. rewrite <- Hid. now apply in_map.
Qed.

(** When ids are unique, that is the only way the row is returned. *)
Lemma resolved_only table with_null r t x :
  NoDup (map row_id table) ->
  In r table -> In t table -> row_copy_id r = Some (row_id t) ->
  In x (run table (base_query with_null)) -> res_id x = row_id r ->
  x = project (r, Some t).
Proof.
  intros Hnd Hr Ht Hc Hx Hid. rewrite run_base in Hx.
  apply in_map_iff in Hx as ([r' o] & <- & Hp).
  apply filter_In in Hp as [Hp _].
  apply outerjoin_elim in Hp as [Hr' Ho]. simpl in *.
  assert (r' = r) by (eapply unique_id; eauto). subst r'.
  destruct o as [t'|].
  - destruct Ho as [Ht' Hon]. apply on_clause_id in Hon.
    rewrite Hc in Hon. injection Hon as Hid'.
    assert (t' = t) by (eapply unique_id; eauto). now subst.
  - specialize (Ho t Ht). rewrite (on_clause_ref _ _ Hc) in Ho.
    discriminate.
Qed.

(** C1.  A row with no locator and no hash whose [copy_id] names a row
    that has both is returned by the resolution query with the locator and
    the hash of the row it names, and with its own id, date and type; when
    ids are unique that is the only row returned under its id.  On the
    two-row table of the scenario (the copy being the later row) the latest
    row has the date of the copy, the hash "h1" and the locator "a", which
    the blob store resolves to whatever it holds under "a". *)
Theorem copy_row_takes_referenced_payload :
  (forall table with_null r t l h,
      In r table -> In t table ->
      row_data r = None -> row_hash r = None ->
      row_copy_id r = Some (row_id t) ->
      row_data t = Some l -> row_hash t = Some h ->
      let resolved :=
        {| res_id := row_id r; res_date := row_date r; res_data := Some l;
           res_type := row_type r; res_hash := Some h |} in
      In resolved (run table (base_query with_null)) /\
      (NoDup (map row_id table) ->
       forall x, In x (run table (base_query with_null)) ->
                 res_id x = row_id r -> x = resolved)) /\
  (forall t1 t2 ty1 ty2 store b,
      t1 < t2 ->
      blob_lookup store "a" = Some b ->
      let table :=
        [ mkRow 1 t1 (Some "a"%string) ty1 (Some "h1"%string) None;
          mkRow 2 t2 None ty2 None (Some 1) ] in
      let latest :=
        {| date := t2; hash := Some "h1"%string; _url := Some "a"%string;
           content_type := ty2 |} in
      outcome (retrieve_latest_row table false) = inr (One latest) /\
      outcome (Data_data store latest) = inr b).
Proof.
  split.
  - intros table with_null r t l h Hr Ht Hd Hh Hc Hl Hhh resolved.
    assert (E : project (r, Some t) = resolved).
    { unfold project, resolved. simpl. now rewrite Hl, Hhh. }
    rewrite <- E. split.
    + now apply resolved_in.
    + intros Hnd x Hx Hid. eapply resolved_only; eauto.
  - intros t1 t2 ty1 ty2 store b Hlt Hb table latest. split.
    + unfold table. rewrite retrieve_latest_row_eq.
      unfold outcome, answer, outerjoin. simpl. unfold sort_key. simpl.
      destruct (Z.leb_spec t2 t1); [lia|reflexivity].
    + unfold Data_data, storage_manager_read, outcome. simpl.
      now rewrite Hb.
Qed.

Lemma copy_row_takes_referenced_payload_witness :
  let table :=
    [ mkRow 1 10 (Some "a"%string) None (Some "h1"%string) None;
      mkRow 2 20 None None None (Some 1) ] in
  In {| res_id := 2; res_date := 20; res_data := Some "a"%string;
        res_type := None; res_hash := Some "h1"%string |}
     (run table (base_query false)) /\
  outcome (retrieve_latest_row table false) =
  inr (One {| date := 20; hash := Some "h1"%string; _url := Some "a"%string;
              content_type := None |}).
Proof.
  intros table. split.
  - refine (proj1 (proj1 copy_row_takes_referenced_payload table false
             (mkRow 2 20 None None None (Some 1))
             (mkRow 1 10 (Some "a"%string) None (Some "h1"%string) None)
             "a"%string "h1"%string _ _ _ _ _ _ _)); simpl; auto.
  - refine (proj1 (proj2 copy_row_takes_referenced_payload 10 20 None None
             [("a"%string, [])] [] _ _)); [lia | reflexivity].
Defined.

(** C2.  What the code does for a row that has a locator and a hash of its
    own and also a [copy_id]: the arguments of [coalesce] put the
    referenced row first, so the referenced row's locator and hash are
    returned and the row's own are dropped; only the type is its own. *)
Theorem own_payload_overridden_by_reference :
  let table :=
    [ mkRow 1 1 (Some "a"%string) (Some "t1"%string) (Some "h1"%string) None;
      mkRow 2 2 (Some "b"%string) (Some "t2"%string) (Some "h2"%string)
        (Some 1) ] in
  run table (base_query false) =
    [ {| res_id := 1; res_date := 1; res_data := Some "a"%string;
         res_type := Some "t1"%string; res_hash := Some "h1"%string |};
      {| res_id := 2; res_date := 2; res_data := Some "a"%string;
         res_type := Some "t2"%string; res_hash := Some "h1"%string |} ] /\
  outcome (retrieve_latest_row table false) =
    inr (One {| date := 2; hash := Some "h1"%string;
                _url := Some "a"%string;
                content_type := Some "t2"%string |}).
Proof. split; reflexivity. Qed.

(** C9.  Resolution looks one row away and no further.  A copy row whose
    [copy_id] names a row without locator and hash is returned with a NULL
    locator and a NULL hash, whatever that row's own [copy_id] names; with
    unique ids this is the only row returned under its id.  On a chain
    3 -> 2 -> 1 where only row 1 has a payload, the latest row carries
    NULLs. *)
Theorem resolution_is_single_hop :
  (forall table with_null r t,
      In r table -> In t table ->
      row_copy_id r = Some (row_id t) ->
      row_data t = None -> row_hash t = None ->
      row_data r = None -> row_hash r = None ->
      let resolved :=
        {| res_id := row_id r; res_date := row_date r; res_data := None;
           res_type := row_type r; res_hash := None |} in
      In resolved (run table (base_query with_null)) /\
      (NoDup (map row_id table) ->
       forall x, In x (run table (base_query with_null)) ->
                 res_id x = row_id r -> x = resolved)) /\
  (forall ty1 ty2 ty3,
      let table :=
        [ mkRow 1 1 (Some "a"%string) ty1 (Some "h1"%string) None;
          mkRow 2 2 None ty2 None (Some 1);
          mkRow 3 3 None ty3 None (Some 2) ] in
      outcome (retrieve_latest_row table false) =
      inr (One {| date := 3; hash := None; _url := None;
                  content_type := ty3 |})).
Proof.
  split.
  - intros table with_null r t Hr Ht Hc Htd Hth Hrd Hrh resolved.
    assert (E : project (r, Some t) = resolved).
    { unfold project, resolved. simpl. now rewrite Htd, Hth, Hrd, Hrh. }
    rewrite <- E. split.
    + now apply resolved_in.
    + intros Hnd x Hx Hid. eapply resolved_only; eauto.
  - intros ty1 ty2 ty3 table. reflexivity.
Qed.

Lemma resolution_is_single_hop_witness :
  let table :=
    [ mkRow 1 1 (Some "a"%string) None (Some "h1"%string) None;
      mkRow 2 2 None None None (Some 1);
      mkRow 3 3 None None None (Some 2) ] in
  In {| res_id := 3; res_date := 3; res_data := None; res_type := None;
        res_hash := None |} (run table (base_query false)).
Proof.
  intros table.
  refine (proj1 (proj1 resolution_is_single_hop table false
            (mkRow 3 3 None None None (Some 2))
            (mkRow 2 2 None None None (Some 1)) _ _ _ _ _ _ _));
    simpl; auto.
Defined.

(** ** The default filter *)

(** C3.  With [with_null] false, which every function uses unless told
    otherwise (and five of the seven always), the rows returned are chosen
    among the rows of the join whose left side is not unresolved, that is,
    has a [copy_id] or a hash; the date filter, the order and the limit
    are applied to those.  With [with_null] true, which only
    [retrieve_latest_row] and [retrieve_latest_row_before_datetime]
    accept, no row is left out for being unresolved.  On a table made of
    one unresolved row the latest row is absent by default, and is that row
    when unresolved rows are asked for. *)
Theorem unresolved_rows_excluded_by_default :
  forall table d s e n,
    outcome (retrieve_latest_row table false) =
      inr (single (answer table (fun r => negb (unresolved r)) Desc 1)) /\
    outcome (retrieve_first_row table) =
      inr (single (answer table (fun r => negb (unresolved r)) Asc 1)) /\
    outcome (retrieve_after_datetime table d n) =
      inr (Many (answer table
                   (fun r => negb (unresolved r) && (d <? row_date r))
                   Desc n)) /\
    outcome (retrieve_before_datetime table d n) =
      inr (Many (answer table
                   (fun r => negb (unresolved r) && (row_date r <? d))
                   Desc n)) /\
    outcome (retrieve_between_datetime table None (Some e) n) =
      inr (Many (answer table
                   (fun r => negb (unresolved r) && (row_date r <? e))
                   Asc n)) /\
    outcome (retrieve_between_datetime table (Some s) None n) =
      inr (Many (answer table
                   (fun r => negb (unresolved r) && (s <? row_date r))
                   Asc n)) /\
    outcome (retrieve_between_datetime table (Some s) (Some e) n) =
      inr (Many (answer table
                   (fun r => negb (unresolved r) &&
                             ((s <? row_date r) && (row_date r <? e)))
                   Asc n)) /\
    outcome (retrieve_latest_rows_before_datetime table d n) =
      inr (Many (answer table
                   (fun r => negb (unresolved r) && (row_date r <? d))
                   Desc n)) /\
    outcome (retrieve_latest_row_before_datetime table d false) =
      inr (single (answer table
                     (fun r => negb (unresolved r) && (row_date r <? d))
                     Desc 1)) /\
    outcome (retrieve_latest_row table true) =
      inr (single (answer table (fun _ => true) Desc 1)) /\
    outcome (retrieve_latest_row_before_datetime table d true) =
      inr (single (answer table (fun r => row_date r <? d) Desc 1)) /\
    (forall u,
        unresolved u = true ->
        outcome (retrieve_latest_row [u] false) = inr Absent /\
        outcome (retrieve_latest_row [u] true) =
          inr (One {| date := row_date u; hash := None; _url := row_data u;
                      content_type := row_type u |})).
Proof.
  intros table d s e n.
  rewrite !retrieve_latest_row_eq, retrieve_first_row_eq,
    retrieve_after_datetime_eq, retrieve_before_datetime_eq,
    retrieve_between_datetime_end, retrieve_between_datetime_start,
    retrieve_between_datetime_both, retrieve_latest_rows_before_datetime_eq,
    !retrieve_latest_row_before_datetime_eq.
  repeat (split; [reflexivity|]).
  intros [i dt da ty h c] Hu. unfold unresolved in Hu. simpl in Hu.
  destruct c, h; try discriminate.
  rewrite !retrieve_latest_row_eq. split; reflexivity.
Qed.

Lemma unresolved_rows_excluded_by_default_witness :
  let u := mkRow 1 5 (Some "x"%string) None None None in
  outcome (retrieve_latest_row [u] false) = inr Absent /\
  outcome (retrieve_latest_row [u] true) =
    inr (One {| date := 5; hash := None; _url := Some "x"%string;
                content_type := None |}).
Proof.
  intros u.
  refine (proj2 (proj2 (proj2 (proj2 (proj2 (proj2 (proj2 (proj2 (proj2
            (proj2 (proj2
               (unresolved_rows_excluded_by_default [] 0 0 0 0%nat)))))))))))
            u _).
  reflexivity.
Defined.

(** ** Errors and absent results *)

(** C4.  With both bounds absent the function takes the branch for an
    absent start and builds [date < None]; building that comparison raises,
    so the call ends with an exception (the caller error the
    specification calls InvalidRange, [ArgumentError] in the library's
    vocabulary), the connection is closed and no statement is executed. *)
Theorem between_without_bounds_rejected :
  forall table n,
    outcome (retrieve_between_datetime table None None n) =
      inl ArgumentError /\
    executed (trace (retrieve_between_datetime table None None n)) = [] /\
    trace (retrieve_between_datetime table None None n) = [Connect; Close].
Proof. intros table n. repeat split. Qed.

(** C5.  The three single-row functions return the absent value, not an
    exception, when no row of the table passes their filter; so do
    [retrieve_latest_row] and [retrieve_first_row] on the empty table. *)
Theorem single_row_absent_when_no_match :
  forall table d with_null,
    ((forall r, In r table -> visible with_null r = false) ->
     outcome (retrieve_latest_row table with_null) = inr Absent) /\
    ((forall r, In r table -> unresolved r = true) ->
     outcome (retrieve_first_row table) = inr Absent) /\
    ((forall r, In r table ->
                visible with_null r && (row_date r <? d) = false) ->
     outcome (retrieve_latest_row_before_datetime table d with_null) =
       inr Absent) /\
    outcome (retrieve_latest_row [] with_null) = inr Absent /\
    outcome (retrieve_first_row []) = inr Absent.
Proof.
  intros table d with_null.
  rewrite retrieve_latest_row_eq, retrieve_first_row_eq,
    retrieve_latest_row_before_datetime_eq.
  unfold outcome. simpl snd.
  split; [|split; [|split; [|split; reflexivity]]].
  - intros H. now rewrite answer_nil.
  - intros H. rewrite answer_nil; [reflexivity|].
    intros r Hr. unfold visible. now rewrite (H r Hr).
  - intros H. now rewrite answer_nil.
Qed.

Lemma single_row_absent_when_no_match_witness :
  let table := [ mkRow 1 5 (Some "a"%string) None None None;
                 mkRow 2 7 None None None None ] in
  outcome (retrieve_latest_row table false) = inr Absent /\
  outcome (retrieve_first_row table) = inr Absent /\
  outcome (retrieve_latest_row_before_datetime table 6 false) = inr Absent.
Proof.
  intros table.
  pose proof (single_row_absent_when_no_match table 6 false)
    as (H1 & H2 & H3 & _).
  split; [|split].
  - apply H1. intros r [<-|[<-|[]]]; reflexivity.
  - apply H2. intros r [<-|[<-|[]]]; reflexivity.
  - apply H3. intros r [<-|[<-|[]]]; reflexivity.
Defined.

(** ** Order, bounds and limits *)

(** C6, as stated, fails: two rows that share a date after [d] are both
    returned, one after the other, so the dates are not strictly
    descending. *)
Lemma after_datetime_not_strictly_descending :
  ~ (forall table d n l,
        outcome (retrieve_after_datetime table d n) = inr (Many l) ->
        (List.length l <= n)%nat /\
        Forall (fun x => d < date x) l /\
        StronglySorted (fun a b => date b < date a) l).
Proof.
  intros H.
  specialize (H [ mkRow 1 5 (Some "a"%string) None (Some "h1"%string) None;
                  mkRow 2 5 (Some "b"%string) None (Some "h2"%string) None ]
                0 2%nat _ eq_refl).
  destruct H as (_ & _ & Hs).
  apply StronglySorted_inv in Hs as [_ Hf].
  apply Forall_inv in Hf. simpl in Hf. lia.
Qed.

(** C6, amended.  [retrieve_after_datetime] returns a list of at most [n]
    results, each dated after [d], and no result is dated later than one
    before it in the list (equal dates may follow one another). *)
Theorem after_datetime_bounded_descending :
  forall table d n,
    exists l,
      outcome (retrieve_after_datetime table d n) = inr (Many l) /\
      (List.length l <= n)%nat /\
      Forall (fun x => d < date x) l /\
      StronglySorted (fun a b => date b <= date a) l.
Proof.
  intros table d n. rewrite retrieve_after_datetime_eq.
  eexists. split; [reflexivity|]. split; [|split].
  - apply answer_length_le.
  - apply answer_dates. intros r _ Hk.
    apply andb_prop in Hk as [_ Hk]. now apply Z.ltb_lt.
  - eapply sorted_weaken; [|apply answer_sorted].
    simpl. intros a b H. now apply Z.leb_le.
Qed.

Lemma sorted_app {A} (R : A -> A -> Prop) l1 l2 :
  StronglySorted R (l1 ++ l2) ->
  forall x y, In x l1 -> In y l2 -> R x y.
Proof.
  induction l1 as [|a l1 IH]; simpl; intros Hs x y Hx Hy; [destruct Hx|].
  apply StronglySorted_inv in Hs as [Hs Ha].
  destruct Hx as [<-|Hx].
  - rewrite Forall_forall in Ha. apply Ha, in_or_app. now right.
  - now apply IH.
Qed.

Lemma answer_ext table keep keep' dir n :
  (forall r, keep r = keep' r) ->
  answer table keep dir n = answer table keep' dir n.
Proof.
  intros H. unfold answer. do 4 f_equal.
  apply filter_ext. intros p. apply H.
Qed.

(** A row that passes the filter is returned, or comes no earlier in the
    order than every row returned: the limit keeps the first rows. *)
Lemma answer_first table keep dir n p :
  In p (outerjoin table) -> keep (fst p) = true ->
  In (to_data (project p)) (answer table keep dir n) \/
  Forall (fun x => before dir (date x) (row_date (fst p)) = true)
    (answer table keep dir n).
Proof.
  intros Hp Hk. unfold answer.
  set (L := sort_by dir (filter (fun p => keep (fst p)) (outerjoin table))).
  assert (Hin : In p L).
  { apply (Permutation_in _ (sort_by_perm dir _)), filter_In. auto. }
  assert (Hs : StronglySorted (ordered dir) (firstn n L ++ skipn n L)).
  { rewrite firstn_skipn. apply sort_by_sorted. }
  rewrite <- (firstn_skipn n L) in Hin.
  apply in_app_or in Hin as [Hin|Hin].
  - left. now apply in_map, in_map.
  - right. rewrite map_map. apply Forall_forall. intros x Hx.
    apply in_map_iff in Hx as (q & <- & Hq).
    apply (sorted_app _ _ _ Hs q p Hq Hin).
Qed.

(** C7.  With at least one bound given, [retrieve_between_datetime]
    returns the rows that are not unresolved and whose date lies strictly
    between the bounds given (after [start] when it is given, before [end]
    when it is given), oldest first, cut after [n] rows: at most [n]
    results, all of them if there are no more than [n], in ascending date
    order, and every row in range that was cut is no older than every
    result. *)
Theorem between_exclusive_ascending :
  forall table lo hi n,
    lo <> None \/ hi <> None ->
    let keep := fun r => negb (unresolved r) && within lo hi (row_date r) in
    exists l,
      outcome (retrieve_between_datetime table lo hi n) = inr (Many l) /\
      l = answer table keep Asc n /\
      List.length l =
        Nat.min n (List.length
                     (filter (fun p => keep (fst p)) (outerjoin table))) /\
      Forall (fun x => (forall s, lo = Some s -> s < date x) /\
                       (forall e, hi = Some e -> date x < e)) l /\
      StronglySorted (fun a b => date a <= date b) l /\
      (forall p, In p (outerjoin table) -> keep (fst p) = true ->
                 In (to_data (project p)) l \/
                 Forall (fun x => date x <= row_date (fst p)) l).
Proof.
  intros table lo hi n Hb keep.
  exists (answer table keep Asc n).
  split; [|split; [reflexivity|split; [|split; [|split]]]].
  - destruct lo as [s|], hi as [e|].
    + rewrite retrieve_between_datetime_both. reflexivity.
    + rewrite retrieve_between_datetime_start. unfold outcome. simpl snd.
      do 2 f_equal. apply answer_ext. intros r. unfold keep, within.
      simpl. now rewrite andb_true_r.
    + rewrite retrieve_between_datetime_end. reflexivity.
    + destruct Hb as [Hb|Hb]; now elim Hb.
  - apply answer_length.
  - apply (answer_dates table keep Asc n
             (fun t => (forall s, lo = Some s -> s < t) /\
                       (forall e, hi = Some e -> t < e))).
    intros r _ Hk. unfold keep, within in Hk.
    apply andb_prop in Hk as [_ Hk]. apply andb_prop in Hk as [H1 H2].
    split.
    + intros s ->. now apply Z.ltb_lt.
    + intros e ->. now apply Z.ltb_lt.
  - eapply sorted_weaken; [|apply answer_sorted].
    simpl. intros a b H. now apply Z.leb_le.
  - intros p Hp Hk.
    destruct (answer_first table keep Asc n p Hp Hk) as [H|H]; [now left|].
    right. eapply Forall_impl; [|exact H].
    simpl. intros x Hx. now apply Z.leb_le.
Qed.

Lemma between_exclusive_ascending_witness :
  let table :=
    [ mkRow 1 10 (Some "a"%string) None (Some "h1"%string) None;
      mkRow 2 20 None None None (Some 1);
      mkRow 3 30 (Some "c"%string) None (Some "h3"%string) None;
      mkRow 4 40 (Some "d"%string) None (Some "h4"%string) None ] in
  exists l,
    outcome (retrieve_between_datetime table (Some 10) None 2) =
      inr (Many l) /\
    List.length l = 2%nat /\
    StronglySorted (fun a b => date a <= date b) l.
Proof.
  intros table.
  destruct (between_exclusive_ascending table (Some 10) None 2%nat)
    as (l & Ho & -> & Hlen & _ & Hs & _).
  - left. discriminate.
  - exists (answer table
              (fun r => negb (unresolved r) && within (Some 10) None (row_date r))
              Asc 2).
    split; [exact Ho|]. split; [rewrite Hlen; reflexivity|exact Hs].
Defined.

(** ** Results and the blob store *)

Lemma data_result_trace func : trace (data_result func) = trace func.
Proof.
  destruct func as [tr [e|a]]; unfold data_result, bind, trace; simpl.
  - reflexivity.
  - apply app_nil_r.
Qed.

(** C8.  The decorator adds no event to what the decorated function did,
    and none of the seven functions asks the blob store for anything,
    whatever its arguments; the date, hash and content type of a result are
    fields, copied from the resolved row.  Reading [data] asks the blob
    store once, for the resolved locator, and returns what the store
    returns: its bytes, or its [StorageUnavailable] when it has nothing
    under that locator. *)
Theorem payload_is_read_on_demand :
  (forall func, trace (data_result func) = trace func) /\
  (forall table d lo hi n with_null,
      blob_reads (trace (retrieve_latest_row table with_null)) = [] /\
      blob_reads (trace (retrieve_first_row table)) = [] /\
      blob_reads (trace (retrieve_after_datetime table d n)) = [] /\
      blob_reads (trace (retrieve_before_datetime table d n)) = [] /\
      blob_reads (trace (retrieve_between_datetime table lo hi n)) = [] /\
      blob_reads (trace (retrieve_latest_rows_before_datetime table d n))
        = [] /\
      blob_reads
        (trace (retrieve_latest_row_before_datetime table d with_null))
        = []) /\
  (forall row,
      date (to_data row) = res_date row /\
      hash (to_data row) = res_hash row /\
      content_type (to_data row) = res_type row /\
      _url (to_data row) = res_data row) /\
  (forall store self,
      trace (Data_data store self) = [BlobRead (_url self)] /\
      (forall u b, _url self = Some u -> blob_lookup store u = Some b ->
                   outcome (Data_data store self) = inr b) /\
      (forall u, _url self = Some u -> blob_lookup store u = None ->
                 outcome (Data_data store self) = inl StorageUnavailable)).
Proof.
  split; [exact data_result_trace|]. split; [|split].
  - intros table d lo hi n with_null.
    repeat split; try reflexivity.
    destruct lo, hi; reflexivity.
  - intros row. repeat split.
  - intros store self. split; [reflexivity|]. split.
    + intros u b Hu Hb. unfold Data_data, storage_manager_read, outcome.
      simpl. now rewrite Hu, Hb.
    + intros u Hu Hb. unfold Data_data, storage_manager_read, outcome.
      simpl. now rewrite Hu, Hb.
Qed.

Lemma payload_is_read_on_demand_witness :
  let self := {| date := 20; hash := Some "h1"%string;
                 _url := Some "a"%string; content_type := None |} in
  outcome (Data_data [] self) = inl StorageUnavailable /\
  outcome (Data_data [("a"%string, [Byte.x2a])] self) = inr [Byte.x2a].
Proof.
  intros self.
  pose proof (proj2 (proj2 (proj2 payload_is_read_on_demand))) as H.
  split.
  - destruct (H [] self) as (_ & _ & Hno).
    apply (Hno "a"%string); reflexivity.
  - destruct (H [("a"%string, [Byte.x2a])] self) as (_ & Hyes & _).
    apply (Hyes "a"%string); reflexivity.
Defined.

(** ** Two names for one query *)

(** C10.  [retrieve_before_datetime] and
    [retrieve_latest_rows_before_datetime] execute the same statement
    (the default filter and [date < d], newest first, at most [n] rows)
    and return the same thing. *)
Theorem before_datetime_same_as_latest_rows_before :
  forall table d n,
    executed (trace (retrieve_before_datetime table d n)) =
      [limit (order_by (where_ (base_query false) (DateLt d)) Desc) n] /\
    executed (trace (retrieve_latest_rows_before_datetime table d n)) =
      [limit (order_by (where_ (base_query false) (DateLt d)) Desc) n] /\
    retrieve_before_datetime table d n =
      retrieve_latest_rows_before_datetime table d n.
Proof. intros table d n. repeat split. Qed.

(** * Further properties of the retrieval functions *)

(** ** The newest and the oldest row *)

Lemma before_refl d a : before d a a = true.
Proof. destruct d; apply Z.leb_refl. Qed.

Lemma outerjoin_covers table r :
  In r table -> exists o, In (r, o) (outerjoin table).
Proof.
  intros Hr. unfold outerjoin.
  destruct (filter (on_clause r) table) as [|m ms] eqn:E.
  - exists None. apply in_flat_map. exists r. split; [exact Hr|].
    rewrite E. now left.
  - exists (Some m). apply in_flat_map. exists r. split; [exact Hr|].
    rewrite E. now left.
Qed.

Lemma answer_nonempty table keep dir n r :
  In r table -> keep r = true -> (0 < n)%nat ->
  answer table keep dir n <> [].
Proof.
  intros Hr Hk Hn E.
  apply (f_equal (@List.length Data)) in E. rewrite answer_length in E.
  destruct (outerjoin_covers table r Hr) as [o Ho].
  assert (Hin : In (r, o) (filter (fun p => keep (fst p)) (outerjoin table)))
    by (apply filter_In; auto).
  destruct (filter (fun p => keep (fst p)) (outerjoin table)); [destruct Hin|].
  simpl in E. lia.
Qed.

(** With a limit of one, the row returned is first in the order among the
    rows that pass the filter. *)
Lemma single_answer table keep dir r :
  In r table -> keep r = true ->
  exists x,
    single (answer table keep dir 1) = One x /\
    (forall r', In r' table -> keep r' = true ->
                before dir (date x) (row_date r') = true) /\
    (exists p, In p (outerjoin table) /\ In (fst p) table /\
               keep (fst p) = true /\ x = to_data (project p)).
Proof.
  intros Hr Hk.
  pose proof (answer_nonempty table keep dir 1 r Hr Hk Nat.lt_0_1) as Hne.
  pose proof (answer_length_le table keep dir 1) as Hle.
  destruct (answer table keep dir 1) as [|x l] eqn:E; [congruence|].
  destruct l; [|simpl in Hle; lia].
  exists x. split; [reflexivity|]. split.
  - intros r' Hr' Hk'.
    destruct (outerjoin_covers table r' Hr') as [o Ho].
    destruct (answer_first table keep dir 1 (r', o) Ho Hk') as [H|H];
      rewrite E in H.
    + destruct H as [->|[]]. simpl. apply before_refl.
    + apply Forall_inv in H. exact H.
  - apply (answer_from table keep dir 1). rewrite E. now left.
Qed.

(** X1.  [retrieve_latest_row] returns a row as soon as one row of the
    table passes the filter (every row with [with_null], the rows that are
    not unresolved without); the row returned carries the date and type of
    such a table row, and no such row has a later date. *)
Theorem latest_row_is_newest :
  forall table with_null r,
    In r table -> visible with_null r = true ->
    exists x,
      outcome (retrieve_latest_row table with_null) = inr (One x) /\
      (forall r', In r' table -> visible with_null r' = true ->
                  row_date r' <= date x) /\
      (exists r0, In r0 table /\ visible with_null r0 = true /\
                  date x = row_date r0 /\ content_type x = row_type r0).
Proof.
  intros table with_null r Hr Hv. rewrite retrieve_latest_row_eq.
  destruct (single_answer table (visible with_null) Desc r Hr Hv)
    as (x & Hx & Hmax & p & _ & Hp & Hk & ->).
  exists (to_data (project p)). split; [now rewrite <- Hx|]. split.
  - intros r' Hr' Hv'. apply Z.leb_le. apply (Hmax r' Hr' Hv').
  - exists (fst p). auto.
Qed.

Lemma latest_row_is_newest_witness :
  let table :=
    [ mkRow 1 10 (Some "a"%string) None (Some "h1"%string) None;
      mkRow 2 30 None None None (Some 1);
      mkRow 3 20 (Some "c"%string) None (Some "h3"%string) None ] in
  exists x,
    outcome (retrieve_latest_row table false) = inr (One x) /\
    10 <= date x /\ 30 <= date x /\ 20 <= date x.
Proof.
  intros table.
  destruct (latest_row_is_newest table false
              (mkRow 1 10 (Some "a"%string) None (Some "h1"%string) None))
    as (x & Ho & Hmax & _).
  - now left.
  - reflexivity.
  - exists x. split; [exact Ho|].
    split; [|split].
    + apply (Hmax (mkRow 1 10 (Some "a"%string) None (Some "h1"%string) None));
        [now left|reflexivity].
    + apply (Hmax (mkRow 2 30 None None None (Some 1)));
        [right; now left|reflexivity].
    + apply (Hmax (mkRow 3 20 (Some "c"%string) None (Some "h3"%string) None));
        [right; right; now left|reflexivity].
Defined.

(** X2.  [retrieve_first_row] returns a row as soon as one row of the table
    is not unresolved; no such row has an earlier date than the row
    returned. *)
Theorem first_row_is_oldest :
  forall table r,
    In r table -> unresolved r = false ->
    exists x,
      outcome (retrieve_first_row table) = inr (One x) /\
      (forall r', In r' table -> unresolved r' = false ->
                  date x <= row_date r') /\
      (exists r0, In r0 table /\ unresolved r0 = false /\
                  date x = row_date r0 /\ content_type x = row_type r0).
Proof.
  intros table r Hr Hu. rewrite retrieve_first_row_eq.
  assert (Hvis : forall a, unresolved a = false <-> visible false a = true).
  { intros a. unfold visible. simpl. destruct (unresolved a); simpl;
      split; congruence. }
  destruct (single_answer table (visible false) Asc r Hr (proj1 (Hvis r) Hu))
    as (x & Hx & Hmin & p & _ & Hp & Hk & ->).
  exists (to_data (project p)). split; [now rewrite <- Hx|]. split.
  - intros r' Hr' Hu'. apply Z.leb_le.
    apply (Hmin r' Hr' (proj1 (Hvis r') Hu')).
  - exists (fst p). repeat split; auto. now apply Hvis.
Qed.

Lemma first_row_is_oldest_witness :
  let table :=
    [ mkRow 1 10 None None None None;
      mkRow 2 30 None None None (Some 1);
      mkRow 3 20 (Some "c"%string) None (Some "h3"%string) None ] in
  exists x,
    outcome (retrieve_first_row table) = inr (One x) /\ date x <= 30.
Proof.
  intros table.
  destruct (first_row_is_oldest table (mkRow 2 30 None None None (Some 1)))
    as (x & Ho & Hmin & _).
  - right. now left.
  - reflexivity.
  - exists x. split; [exact Ho|].
    apply (Hmin (mkRow 2 30 None None None (Some 1)));
      [right; now left|reflexivity].
Defined.

(** X3.  [retrieve_latest_row_before_datetime] returns a row as soon as
    one row that passes the filter is dated before [d]; the row returned
    is dated before [d], and no row that passes the filter and is dated
    before [d] is later. *)
Theorem latest_row_before_is_newest_before :
  forall table d with_null r,
    In r table -> visible with_null r = true -> row_date r < d ->
    exists x,
      outcome (retrieve_latest_row_before_datetime table d with_null) =
        inr (One x) /\
      date x < d /\
      (forall r', In r' table -> visible with_null r' = true ->
                  row_date r' < d -> row_date r' <= date x).
Proof.
  intros table d with_null r Hr Hv Hd.
  rewrite retrieve_latest_row_before_datetime_eq.
  destruct (single_answer table
              (fun a => visible with_null a && (row_date a <? d)) Desc r Hr)
    as (x & Hx & Hmax & p & _ & Hp & Hk & ->).
  { rewrite Hv. simpl. now apply Z.ltb_lt. }
  exists (to_data (project p)). split; [now rewrite <- Hx|]. split.
  - apply andb_prop in Hk as [_ Hk]. simpl. now apply Z.ltb_lt.
  - intros r' Hr' Hv' Hd'. apply Z.leb_le. apply (Hmax r' Hr').
    rewrite Hv'. simpl. now apply Z.ltb_lt.
Qed.

Lemma latest_row_before_is_newest_before_witness :
  let table :=
    [ mkRow 1 10 (Some "a"%string) None (Some "h1"%string) None;
      mkRow 2 30 None None None (Some 1);
      mkRow 3 20 (Some "c"%string) None (Some "h3"%string) None ] in
  exists x,
    outcome (retrieve_latest_row_before_datetime table 25 false) =
      inr (One x) /\
    date x < 25 /\ 20 <= date x.
Proof.
  intros table.
  destruct (latest_row_before_is_newest_before table 25 false
              (mkRow 1 10 (Some "a"%string) None (Some "h1"%string) None))
    as (x & Ho & Hd & Hmax).
  - now left.
  - reflexivity.
  - reflexivity.
  - exists x. split; [exact Ho|]. split; [exact Hd|].
    apply (Hmax (mkRow 3 20 (Some "c"%string) None (Some "h3"%string) None));
      [right; right; now left|reflexivity|reflexivity].
Defined.

(** X4.  [retrieve_before_datetime] returns at most [n] results, each
    dated before [d], none dated later than one before it in the list,
    all the rows dated before [d] that are not unresolved when there are no
    more than [n]; a row left out by the limit is no newer than any
    result. *)
Theorem before_datetime_bounded_descending :
  forall table d n,
    let keep := fun r => negb (unresolved r) && (row_date r <? d) in
    exists l,
      outcome (retrieve_before_datetime table d n) = inr (Many l) /\
      List.length l =
        Nat.min n (List.length
                     (filter (fun p => keep (fst p)) (outerjoin table))) /\
      Forall (fun x => date x < d) l /\
      StronglySorted (fun a b => date b <= date a) l /\
      (forall p, In p (outerjoin table) -> keep (fst p) = true ->
                 In (to_data (project p)) l \/
                 Forall (fun x => row_date (fst p) <= date x) l).
Proof.
  intros table d n keep. rewrite retrieve_before_datetime_eq.
  exists (answer table keep Desc n).
  split; [reflexivity|]. split; [|split; [|split]].
  - apply answer_length.
  - apply (answer_dates table keep Desc n (fun t => t < d)). intros r _ Hk.
    apply andb_prop in Hk as [_ Hk]. now apply Z.ltb_lt.
  - eapply sorted_weaken; [|apply answer_sorted].
    simpl. intros a b H. now apply Z.leb_le.
  - intros p Hp Hk.
    destruct (answer_first table keep Desc n p Hp Hk) as [H|H]; [now left|].
    right. eapply Forall_impl; [|exact H].
    simpl. intros x Hx. now apply Z.leb_le.
Qed.

(** X5.  Asking [retrieve_before_datetime] for one row and asking
    [retrieve_latest_row_before_datetime] (without unresolved rows) agree:
    the second returns the only element of the list the first returns, and
    is absent when that list is empty. *)
Theorem latest_row_before_is_head_of_before :
  forall table d,
    exists l,
      outcome (retrieve_before_datetime table d 1) = inr (Many l) /\
      outcome (retrieve_latest_row_before_datetime table d false) =
        inr (single l) /\
      (List.length l <= 1)%nat.
Proof.
  intros table d.
  rewrite retrieve_before_datetime_eq, retrieve_latest_row_before_datetime_eq.
  eexists. split; [reflexivity|]. split; [reflexivity|].
  apply answer_length_le.
Qed.






(** ** Connections and lists *)

(** X8.  Every function opens one connection, executes at most one
    statement on it and closes it, also when it raises.
    [retrieve_between_datetime] is the only one that may execute no
    statement, and it does so exactly when both bounds are absent. *)
Theorem one_connection_per_call :
  forall table d lo hi n with_null,
    one_connection (trace (retrieve_latest_row table with_null)) /\
    one_connection (trace (retrieve_first_row table)) /\
    one_connection (trace (retrieve_after_datetime table d n)) /\
    one_connection (trace (retrieve_before_datetime table d n)) /\
    one_connection (trace (retrieve_between_datetime table lo hi n)) /\
    one_connection (trace (retrieve_latest_rows_before_datetime table d n)) /\
    one_connection
      (trace (retrieve_latest_row_before_datetime table d with_null)) /\
    (executed (trace (retrieve_between_datetime table lo hi n)) = [] <->
     lo = None /\ hi = None).
Proof.
  intros table d lo hi n with_null.
  repeat split; try (right; eexists; reflexivity).
  - destruct lo, hi; try (right; eexists; reflexivity). now left.
  - destruct lo; [destruct hi; discriminate|reflexivity].
  - destruct lo, hi; try discriminate; reflexivity.
  - intros [-> ->]. reflexivity.
Qed.

(** X9.  The list functions return a list, empty when nothing is to be
    returned, never the absent value: when no row that is not unresolved
    lies on the asked side of [d], and when the limit is zero. *)
Theorem list_functions_return_empty_list :
  forall table d n,
    ((forall r, In r table -> unresolved r = true \/ row_date r <= d) ->
     outcome (retrieve_after_datetime table d n) = inr (Many []) /\
     outcome (retrieve_between_datetime table (Some d) None n) =
       inr (Many [])) /\
    ((forall r, In r table -> unresolved r = true \/ d <= row_date r) ->
     outcome (retrieve_before_datetime table d n) = inr (Many []) /\
     outcome (retrieve_latest_rows_before_datetime table d n) =
       inr (Many []) /\
     outcome (retrieve_between_datetime table None (Some d) n) =
       inr (Many [])) /\
    outcome (retrieve_after_datetime table d 0) = inr (Many []) /\
    outcome (retrieve_before_datetime table d 0) = inr (Many []) /\
    outcome (retrieve_latest_rows_before_datetime table d 0) =
      inr (Many []) /\
    outcome (retrieve_between_datetime table (Some d) None 0) =
      inr (Many []) /\
    outcome (retrieve_between_datetime table None (Some d) 0) =
      inr (Many []).
Proof.
  intros table d n.
  rewrite !retrieve_latest_rows_before_datetime_eq,
    ?retrieve_before_datetime_eq, !retrieve_after_datetime_eq,
    !retrieve_between_datetime_start, !retrieve_between_datetime_end.
  unfold outcome. simpl snd.
  split; [|split; [|repeat split]].
  - intros H.
    assert (E : forall r, In r table ->
                  visible false r && (d <? row_date r) = false).
    { intros r Hr. unfold visible. simpl.
      destruct (H r Hr) as [Hu|Hd]; [now rewrite Hu|].
      apply andb_false_intro2. apply Z.ltb_ge. exact Hd. }
    now rewrite !answer_nil.
  - intros H.
    assert (E : forall r, In r table ->
                  visible false r && (row_date r <? d) = false).
    { intros r Hr. unfold visible. simpl.
      destruct (H r Hr) as [Hu|Hd]; [now rewrite Hu|].
      apply andb_false_intro2. apply Z.ltb_ge. exact Hd. }
    now rewrite !answer_nil.
Qed.

Lemma list_functions_return_empty_list_witness :
  let table :=
    [ mkRow 1 10 (Some "a"%string) None (Some "h1"%string) None;
      mkRow 2 30 None None None None ] in
  outcome (retrieve_after_datetime table 20 5) = inr (Many []) /\
  outcome (retrieve_before_datetime table 10 5) = inr (Many []).
Proof.
  intros table. split.
  - apply (proj1 (list_functions_return_empty_list table 20 5%nat)).
    intros r [<-|[<-|[]]]; simpl; [right; lia|left; reflexivity].
  - apply (proj1 (proj2 (list_functions_return_empty_list table 10 5%nat))).
    intros r [<-|[<-|[]]]; simpl; [right; lia|left; reflexivity].
Defined.

(** X10.  When the end bound is not after the start bound,
    [retrieve_between_datetime] returns the empty list: both bounds are
    exclusive, so no date lies between them. *)
Theorem between_empty_range :
  forall table s e n,
    e <= s ->
    outcome (retrieve_between_datetime table (Some s) (Some e) n) =
      inr (Many []).
Proof.
  intros table s e n H. rewrite retrieve_between_datetime_both.
  unfold outcome. simpl snd. rewrite answer_nil; [reflexivity|].
  intros r _. apply andb_false_intro2.
  destruct (Z.ltb_spec s (row_date r)); [|reflexivity].
  simpl. apply Z.ltb_ge. lia.
Qed.

Lemma between_empty_range_witness :
  outcome (retrieve_between_datetime
             [ mkRow 1 10 (Some "a"%string) None (Some "h1"%string) None ]
             (Some 10) (Some 10) 3) = inr (Many []).
Proof. apply between_empty_range. lia. Defined.




Lemma answer_all table keep dir n :
  (List.length (filter (fun p => keep (fst p)) (outerjoin table)) <= n)%nat ->
  answer table keep dir n =
  map to_data
    (map project
       (sort_by dir (filter (fun p => keep (fst p)) (outerjoin table)))).
Proof.
  intros H. unfold answer. rewrite firstn_all2; [reflexivity|].
  now rewrite sort_by_length.
Qed.

(** X12.  When [retrieve_after_datetime] returns fewer rows than the
    limit, [retrieve_between_datetime] with the same start, no end and the
    same limit returns the same results, in the other direction: the two
    lists are permutations of each other. *)
Theorem after_and_open_between_same_rows :
  forall table s n la,
    outcome (retrieve_after_datetime table s n) = inr (Many la) ->
    (List.length la < n)%nat ->
    exists lb,
      outcome (retrieve_between_datetime table (Some s) None n) =
        inr (Many lb) /\
      Permutation la lb /\
      StronglySorted (fun a b => date a <= date b) lb.
Proof.
  intros table s n la Ha Hlen.
  rewrite retrieve_after_datetime_eq in Ha.
  rewrite retrieve_between_datetime_start.
  unfold outcome in *. simpl snd in *. injection Ha as <-.
  eexists. split; [reflexivity|]. split.
  - rewrite answer_length in Hlen.
    rewrite !answer_all by lia.
    do 2 apply Permutation_map.
    rewrite <- (sort_by_perm Desc). apply sort_by_perm.
  - eapply sorted_weaken; [|apply answer_sorted].
    simpl. intros a b H. now apply Z.leb_le.
Qed.

Lemma after_and_open_between_same_rows_witness :
  let table :=
    [ mkRow 1 10 (Some "a"%string) None (Some "h1"%string) None;
      mkRow 2 30 None None None (Some 1);
      mkRow 3 20 (Some "c"%string) None (Some "h3"%string) None ] in
  exists lb,
    outcome (retrieve_between_datetime table (Some 10) None 5) =
      inr (Many lb) /\
    Permutation
      [ mkData 30 (Some "h1"%string) (Some "a"%string) None;
        mkData 20 (Some "h3"%string) (Some "c"%string) None ] lb.
Proof.
  intros table.
  destruct (after_and_open_between_same_rows table 10 5%nat
              [ mkData 30 (Some "h1"%string) (Some "a"%string) None;
                mkData 20 (Some "h3"%string) (Some "c"%string) None ])
    as (lb & Hb & Hp & _).
  - reflexivity.
  - simpl. lia.
  - exists lb. split; [exact Hb|exact Hp].
Defined.

(** ** Rows, references and results *)

Lemma outerjoin_none table r :
  In r table -> (forall t, In t table -> on_clause r t = false) ->
  In (r, None) (outerjoin table).
Proof.
  intros Hr H. unfold outerjoin. apply in_flat_map.
  exists r. split; [exact Hr|].
  destruct (filter (on_clause r) table) as [|m ms] eqn:E.
  - now left.
  - assert (Hm : In m (filter (on_clause r) table)) by (rewrite E; now left).
    apply filter_In in Hm as [Hm Hon]. rewrite (H m Hm) in Hon.
    discriminate.
Qed.

Lemma chosen_in table q p : In p (chosen table q) -> In p (matching table q).
Proof.
  unfold chosen, apply_limit, apply_order. intros H.
  destruct (limit_clause q); [apply firstn_In in H|];
    destruct (order_by_clause q);
    try (apply (Permutation_in _ (Permutation_sym (sort_by_perm _ _))) in H);
    exact H.
Qed.

(** X13.  A row whose [copy_id] is NULL or names no row of the table is
    not lost by the join: it is returned with its own locator and hash
    (when it passes the filter), and with unique ids that is the only row
    returned under its id. *)
Theorem unreferencing_row_keeps_own_fields :
  forall table with_null r,
    In r table ->
    (forall t, In t table -> row_copy_id r <> Some (row_id t)) ->
    visible with_null r = true ->
    let own :=
      {| res_id := row_id r; res_date := row_date r;
         res_data := row_data r; res_type := row_type r;
         res_hash := row_hash r |} in
    In own (run table (base_query with_null)) /\
    (NoDup (map row_id table) ->
     forall x, In x (run table (base_query with_null)) ->
               res_id x = row_id r -> x = own).
Proof.
  intros table with_null r Hr Hno Hv own.
  assert (Hoff : forall t, In t table -> on_clause r t = false).
  { intros t Ht. destruct (on_clause r t) eqn:E; [|reflexivity].
    apply on_clause_id in E. now elim (Hno t Ht). }
  rewrite run_base. split.
  - change own with (project (r, None)). apply in_map, filter_In.
    split; [now apply outerjoin_none|exact Hv].
  - intros Hnd x Hx Hid.
    apply in_map_iff in Hx as ([r' o] & <- & Hp).
    apply filter_In in Hp as [Hp _].
    apply outerjoin_elim in Hp as [Hr' Ho]. simpl in *.
    assert (r' = r) by (eapply unique_id; eauto). subst r'.
    destruct o as [t|]; [|reflexivity].
    destruct Ho as [Ht Hon]. rewrite (Hoff t Ht) in Hon. discriminate.
Qed.

Lemma unreferencing_row_keeps_own_fields_witness :
  let table :=
    [ mkRow 1 10 (Some "a"%string) None (Some "h1"%string) None;
      mkRow 2 20 (Some "b"%string) None None (Some 7) ] in
  In {| res_id := 2; res_date := 20; res_data := Some "b"%string;
        res_type := None; res_hash := None |}
     (run table (base_query false)).
Proof.
  intros table.
  refine (proj1 (unreferencing_row_keeps_own_fields table false
                   (mkRow 2 20 (Some "b"%string) None None (Some 7)) _ _ _)).
  - right. now left.
  - intros t [<-|[<-|[]]]; discriminate.
  - reflexivity.
Defined.

Lemma on_clause_at_most_one l r :
  NoDup (map row_id l) -> (List.length (filter (on_clause r) l) <= 1)%nat.
Proof.
  induction l as [|a l IH]; simpl; intros Hnd; [lia|].
  inversion Hnd as [|? ? Hnot Hnd']; subst.
  destruct (on_clause r a) eqn:E; [|auto].
  destruct (filter (on_clause r) l) as [|m ms] eqn:F; [simpl; lia|].
  exfalso. apply Hnot.
  assert (Hm : In m (filter (on_clause r) l)) by (rewrite F; now left).
  apply filter_In in Hm as [Hm Hon].
  apply on_clause_id in E. apply on_clause_id in Hon.
  rewrite E in Hon. injection Hon as ->. now apply in_map.
Qed.

Lemma flat_map_fst {A B} (f : A -> list (A * B)) l :
  (forall r, map fst (f r) = [r]) -> map fst (flat_map f l) = l.
Proof.
  intros H. induction l as [|a l IH]; simpl; [reflexivity|].
  rewrite map_app, H, IH. reflexivity.
Qed.

Lemma outerjoin_fst table :
  NoDup (map row_id table) -> map fst (outerjoin table) = table.
Proof.
  intros Hnd. unfold outerjoin.
  assert (H : forall r,
             map fst
               match filter (on_clause r) table with
               | [] => [(r, None)]
               | ms => map (fun t => (r, Some t)) ms
               end = [r]).
  { intros r. pose proof (on_clause_at_most_one table r Hnd) as Hle.
    destruct (filter (on_clause r) table) as [|m [|m' ms]];
      simpl in *; try reflexivity; lia. }
  now apply flat_map_fst.
Qed.

Lemma map_fst_filter {A B} (g : A -> bool) (L : list (A * B)) :
  map fst (filter (fun p => g (fst p)) L) = filter g (map fst L).
Proof.
  induction L as [|p L IH]; simpl; [reflexivity|].
  destruct (g (fst p)); simpl; now rewrite IH.
Qed.

(** X14.  With unique ids the resolution query returns one row for each
    row of the table that passes its filter, under that row's id: every row
    with [with_null], the rows that are not unresolved without. *)
Theorem one_result_per_row :
  forall table with_null,
    NoDup (map row_id table) ->
    map res_id (run table (base_query with_null)) =
      map row_id (filter (visible with_null) table) /\
    (with_null = true ->
     List.length (run table (base_query with_null)) = List.length table).
Proof.
  intros table with_null Hnd.
  assert (E : map res_id (run table (base_query with_null)) =
              map row_id (filter (visible with_null) table)).
  { rewrite run_base, map_map.
    rewrite <- (outerjoin_fst table Hnd) at 2.
    rewrite <- map_fst_filter, map_map. reflexivity. }
  split; [exact E|].
  intros ->. apply (f_equal (@List.length Z)) in E.
  rewrite !length_map in E. rewrite E. f_equal.
  clear. induction table as [|a l IH]; simpl; [reflexivity|now rewrite IH].
Qed.

Lemma one_result_per_row_witness :
  let table :=
    [ mkRow 1 10 (Some "a"%string) None (Some "h1"%string) None;
      mkRow 2 20 None None None (Some 1);
      mkRow 3 30 None None None None ] in
  map res_id (run table (base_query false)) = [1; 2].
Proof.
  intros table.
  refine (proj1 (one_result_per_row table false _)).
  repeat constructor; simpl; intuition discriminate.
Defined.

Lemma holds_all_fst cs r o o' : holds_all cs (r, o) = holds_all cs (r, o').
Proof.
  unfold holds_all. induction cs as [|c cs IH]; simpl; [reflexivity|].
  rewrite IH. destruct c; reflexivity.
Qed.

(** X15.  Whatever the statement, every row it returns comes from a row of
    the table that passes its WHERE clauses: it has that row's id, date
    and type, and its locator and hash are that row's own when the row
    references no row of the table, and otherwise those of a row it
    references, each replaced by the row's own where the referenced one is
    NULL. *)
Theorem results_come_from_rows :
  forall table q x,
    In x (run table q) ->
    exists r,
      In r table /\
      holds_all (whereclause q) (r, None) = true /\
      res_id x = row_id r /\ res_date x = row_date r /\
      res_type x = row_type r /\
      ((forall t, In t table -> row_copy_id r <> Some (row_id t)) /\
       res_data x = row_data r /\ res_hash x = row_hash r
       \/
       exists t, In t table /\ row_copy_id r = Some (row_id t) /\
                 res_data x = coalesce (row_data t) (row_data r) /\
                 res_hash x = coalesce (row_hash t) (row_hash r)).
Proof.
  intros table q x Hx. unfold run in Hx.
  apply in_map_iff in Hx as ([r o] & <- & Hp).
  apply chosen_in in Hp. unfold matching in Hp.
  apply filter_In in Hp as [Hp Hh].
  apply outerjoin_elim in Hp as [Hr Ho]. simpl in Hr, Ho.
  exists r. split; [exact Hr|]. split.
  - now rewrite (holds_all_fst _ r None o).
  - repeat split. destruct o as [t|].
    + right. exists t. destruct Ho as [Ht Hon].
      apply on_clause_id in Hon. auto.
    + left. split; [|split; reflexivity].
      intros t Ht Hc. apply on_clause_ref in Hc.
      rewrite (Ho t Ht) in Hc. discriminate.
Qed.

Lemma results_come_from_rows_witness :
  let table :=
    [ mkRow 1 10 (Some "a"%string) None (Some "h1"%string) None;
      mkRow 2 20 None None None (Some 1) ] in
  exists r, In r table /\ row_id r = 2 /\ row_date r = 20.
Proof.
  intros table.
  destruct (results_come_from_rows table (base_query false)
              {| res_id := 2; res_date := 20; res_data := Some "a"%string;
                 res_type := None; res_hash := Some "h1"%string |})
    as (r & Hr & _ & Hid & Hd & _).
  - right. now left.
  - exists r. simpl in Hid, Hd. auto.
Defined.

Lemma well_formed_pair table p :
  well_formed table -> In p (outerjoin table) ->
  is_some (res_data (project p)) = true /\
  is_some (res_hash (project p)) = true.
Proof.
  intros [Hnd Hrows] Hp. destruct p as [r o].
  apply outerjoin_elim in Hp as [Hr Ho]. simpl in Hr, Ho.
  destruct (Hrows r Hr) as [Hown|(t0 & Ht0 & Hc & Hpay)].
  - apply andb_prop in Hown as [Hd Hh]. unfold project. simpl.
    destruct o as [t|]; simpl.
    + destruct (row_data t), (row_hash t); auto.
    + auto.
  - destruct o as [t|].
    + destruct Ho as [Ht Hon]. apply on_clause_id in Hon.
      rewrite Hc in Hon. injection Hon as Hid.
      assert (t0 = t) by (eapply unique_id; eauto). subst t0.
      apply andb_prop in Hpay as [Hd Hh]. unfold project. simpl.
      destruct (row_data t), (row_hash t); try discriminate; auto.
    + specialize (Ho t0 Ht0). rewrite (on_clause_ref _ _ Hc) in Ho.
      discriminate.
Qed.

Lemma answer_payload table keep dir n :
  well_formed table ->
  Forall (fun x => is_some (_url x) = true /\ is_some (hash x) = true)
    (answer table keep dir n).
Proof.
  intros Hwf. apply Forall_forall. intros x Hx.
  apply answer_from in Hx as (p & Hp & _ & _ & ->).
  exact (well_formed_pair table p Hwf Hp).
Qed.

(** X16.  On a table with unique ids in which every row has a locator and
    a hash of its own or names a row that has, no statement returns a row
    with a NULL locator or a NULL hash, and so none of the seven functions
    returns a result without a hash or without a locator to read. *)
Theorem well_formed_table_gives_payloads :
  forall table,
    well_formed table ->
    let ok := fun x : Data =>
      is_some (_url x) = true /\ is_some (hash x) = true in
    let good := fun res : result =>
      match res with
      | Absent => True
      | One x => ok x
      | Many l => Forall ok l
      end in
    (forall q x, In x (run table q) ->
                 is_some (res_data x) = true /\
                 is_some (res_hash x) = true) /\
    (forall d lo hi n with_null res,
        (outcome (retrieve_latest_row table with_null) = inr res \/
         outcome (retrieve_first_row table) = inr res \/
         outcome (retrieve_after_datetime table d n) = inr res \/
         outcome (retrieve_before_datetime table d n) = inr res \/
         outcome (retrieve_between_datetime table lo hi n) = inr res \/
         outcome (retrieve_latest_rows_before_datetime table d n) = inr res \/
         outcome (retrieve_latest_row_before_datetime table d with_null) =
           inr res) ->
        good res).
Proof.
  intros table Hwf ok good. split.
  - intros q x Hx. unfold run in Hx.
    apply in_map_iff in Hx as (p & <- & Hp).
    apply chosen_in in Hp. unfold matching in Hp.
    apply filter_In in Hp as [Hp _].
    exact (well_formed_pair table p Hwf Hp).
  - assert (Hs : forall keep dir, good (single (answer table keep dir 1))).
    { intros keep dir. pose proof (answer_payload table keep dir 1 Hwf) as H.
      destruct (answer table keep dir 1); simpl; [exact I|].
      exact (Forall_inv H). }
    assert (Hm : forall keep dir n, good (Many (answer table keep dir n))).
    { intros keep dir n. exact (answer_payload table keep dir n Hwf). }
    intros d lo hi n with_null res H.
    rewrite retrieve_latest_row_eq, retrieve_first_row_eq,
      retrieve_after_datetime_eq, retrieve_latest_rows_before_datetime_eq,
      ?retrieve_before_datetime_eq, retrieve_latest_row_before_datetime_eq
      in H.
    unfold outcome in H. simpl snd in H.
    destruct H as [E|[E|[E|[E|[E|[E|E]]]]]];
      try (injection E as <-; solve [apply Hs | apply Hm]).
    destruct lo as [s|], hi as [e|].
    + rewrite retrieve_between_datetime_both in E. injection E as <-.
      apply Hm.
    + rewrite retrieve_between_datetime_start in E. injection E as <-.
      apply Hm.
    + rewrite retrieve_between_datetime_end in E. injection E as <-.
      apply Hm.
    + discriminate E.
Qed.

Lemma well_formed_table_gives_payloads_witness :
  let table :=
    [ mkRow 1 10 (Some "a"%string) None (Some "h1"%string) None;
      mkRow 2 20 None None None (Some 1) ] in
  is_some (_url (mkData 20 (Some "h1"%string) (Some "a"%string) None)) = true
  /\ is_some (hash (mkData 20 (Some "h1"%string) (Some "a"%string) None))
     = true.
Proof.
  intros table.
  assert (Hwf : well_formed table).
  { split.
    - repeat constructor; simpl; intuition discriminate.
    - intros r [<-|[<-|[]]].
      + left. reflexivity.
      + right.
        exists (mkRow 1 10 (Some "a"%string) None (Some "h1"%string) None).
        split; [now left|]. split; reflexivity. }
  refine (proj2 (well_formed_table_gives_payloads table Hwf) 0 None None 0%nat
            false
            (One (mkData 20 (Some "h1"%string) (Some "a"%string) None)) _).
  left. reflexivity.
Defined.

(** ** Boundaries *)

Lemma single_in l x : single l = One x -> In x l.
Proof. destruct l as [|y l]; simpl; [discriminate|]. intros [= ->]. now left. Qed.

(** X17.  A row dated exactly [d] is on neither side of [d]: no result of
    [retrieve_after_datetime], [retrieve_before_datetime],
    [retrieve_latest_rows_before_datetime],
    [retrieve_latest_row_before_datetime] or of
    [retrieve_between_datetime] with [d] as one of its bounds carries the
    date [d]. *)
Theorem boundary_date_is_excluded :
  forall table d other n with_null,
    (forall l,
        outcome (retrieve_after_datetime table d n) = inr (Many l) \/
        outcome (retrieve_before_datetime table d n) = inr (Many l) \/
        outcome (retrieve_latest_rows_before_datetime table d n) =
          inr (Many l) \/
        outcome (retrieve_between_datetime table (Some d) other n) =
          inr (Many l) \/
        outcome (retrieve_between_datetime table other (Some d) n) =
          inr (Many l) ->
        Forall (fun x => date x <> d) l) /\
    (forall x,
        outcome (retrieve_latest_row_before_datetime table d with_null) =
          inr (One x) ->
        date x <> d).
Proof.
  intros table d other n with_null.
  assert (Hgt : forall keep dir m,
             (forall r, keep r = true -> d < row_date r) ->
             Forall (fun x => date x <> d) (answer table keep dir m)).
  { intros keep dir m H.
    apply (answer_dates table keep dir m (fun t => t <> d)).
    intros r _ Hk. apply H in Hk. lia. }
  assert (Hlt : forall keep dir m,
             (forall r, keep r = true -> row_date r < d) ->
             Forall (fun x => date x <> d) (answer table keep dir m)).
  { intros keep dir m H.
    apply (answer_dates table keep dir m (fun t => t <> d)).
    intros r _ Hk. apply H in Hk. lia. }
  split.
  - intros l H.
    rewrite retrieve_after_datetime_eq,
      retrieve_latest_rows_before_datetime_eq, ?retrieve_before_datetime_eq
      in H.
    unfold outcome in H. simpl snd in H.
    destruct H as [E|[E|[E|[E|E]]]].
    + injection E as <-. apply Hgt. intros r Hk.
      apply andb_prop in Hk as [_ Hk]. now apply Z.ltb_lt.
    + injection E as <-. apply Hlt. intros r Hk.
      apply andb_prop in Hk as [_ Hk]. now apply Z.ltb_lt.
    + injection E as <-. apply Hlt. intros r Hk.
      apply andb_prop in Hk as [_ Hk]. now apply Z.ltb_lt.
    + destruct other as [e|].
      * rewrite retrieve_between_datetime_both in E. injection E as <-.
        apply Hgt. intros r Hk.
        apply andb_prop in Hk as [_ Hk]. apply andb_prop in Hk as [Hk _].
        now apply Z.ltb_lt.
      * rewrite retrieve_between_datetime_start in E. injection E as <-.
        apply Hgt. intros r Hk.
        apply andb_prop in Hk as [_ Hk]. now apply Z.ltb_lt.
    + destruct other as [s|].
      * rewrite retrieve_between_datetime_both in E. injection E as <-.
        apply Hlt. intros r Hk.
        apply andb_prop in Hk as [_ Hk]. apply andb_prop in Hk as [_ Hk].
        now apply Z.ltb_lt.
      * rewrite retrieve_between_datetime_end in E. injection E as <-.
        apply Hlt. intros r Hk.
        apply andb_prop in Hk as [_ Hk]. now apply Z.ltb_lt.
  - intros x E. rewrite retrieve_latest_row_before_datetime_eq in E.
    unfold outcome in E. simpl snd in E. injection E as E.
    apply single_in in E.
    pose proof (Hlt (fun r => visible with_null r && (row_date r <? d))
                  Desc 1%nat) as H.
    rewrite Forall_forall in H. apply H; [|exact E].
    intros r Hk. apply andb_prop in Hk as [_ Hk]. now apply Z.ltb_lt.
Qed.

Lemma boundary_date_is_excluded_witness :
  let table :=
    [ mkRow 1 10 (Some "a"%string) None (Some "h1"%string) None;
      mkRow 2 20 (Some "b"%string) None (Some "h2"%string) None;
      mkRow 3 30 (Some "c"%string) None (Some "h3"%string) None ] in
  Forall (fun x => date x <> 20)
    [ mkData 30 (Some "h3"%string) (Some "c"%string) None ] /\
  date (mkData 10 (Some "h1"%string) (Some "a"%string) None) <> 20.
Proof.
  intros table.
  pose proof (boundary_date_is_excluded table 20 None 5%nat false)
    as [Hl Hx].
  split.
  - apply Hl. left. reflexivity.
  - apply Hx. reflexivity.
Defined.

(** X18.  When [retrieve_first_row] and [retrieve_latest_row] (without
    unresolved rows) both return a row, the first is dated no later than
    the latest. *)
Theorem first_row_not_after_latest_row :
  forall table x y,
    outcome (retrieve_first_row table) = inr (One x) ->
    outcome (retrieve_latest_row table false) = inr (One y) ->
    date x <= date y.
Proof.
  intros table x y Hx Hy.
  rewrite retrieve_first_row_eq in Hx. rewrite retrieve_latest_row_eq in Hy.
  unfold outcome in *. simpl snd in *.
  injection Hx as Hx. injection Hy as Hy.
  pose proof (single_in _ _ Hy) as Hin.
  apply answer_from in Hin as (p & _ & Hp & Hk & ->).
  destruct (single_answer table (visible false) Asc (fst p) Hp Hk)
    as (x' & Hx' & Hmin & _).
  rewrite Hx in Hx'. injection Hx' as <-.
  apply Z.leb_le. exact (Hmin (fst p) Hp Hk).
Qed.

Lemma first_row_not_after_latest_row_witness :
  date (mkData 10 (Some "h1"%string) (Some "a"%string) None) <=
  date (mkData 30 (Some "h1"%string) (Some "a"%string) None).
Proof.
  apply (first_row_not_after_latest_row
           [ mkRow 1 10 (Some "a"%string) None (Some "h1"%string) None;
             mkRow 2 30 None None None (Some 1);
             mkRow 3 20 (Some "c"%string) None (Some "h3"%string) None ]);
    reflexivity.
Defined.
